(** * LootTableSelector: a shallow embedding of [src/loot_table_selector/src/main.rs]

    The loot-table parser is the loop over [reader.lines()] in [main]; the
    selector is [pick_random_uniform] / [pick_random_weighted], dispatched on
    the table's format by the "Pick Loot" button callback.

    Rust panics (explicit [panic!], [unwrap] on an [Err], rand's assertions,
    u32 overflow under overflow checks) are modelled as the [Panic]
    constructor of [outcome], tagged with the panic site.  A panic is not a
    value the caller can inspect: it aborts the process.

    The random source is modelled by the value the sampler draws: the
    selectors take the sample [r] that [Uniform::sample] (resp. the uniform
    sampler inside [WeightedIndex]) returns, which rand draws uniformly from
    the sampler's half-open range. *)

From Stdlib Require Import List String Ascii Bool Arith NArith QArith Lia.
From Stdlib Require Import ZArith Sorting.Sorted DecimalString.
Import ListNotations.
Open Scope nat_scope.
Open Scope string_scope.

(** ** Rust results and panics *)

Inductive result (A E : Type) : Type :=
| Ok (a : A)
| Err (e : E).
Arguments Ok {A E} a.
Arguments Err {A E} e.

(** [core::num::IntErrorKind] as produced by [u32::from_str]. *)
Inductive ParseIntError : Type :=
| PIE_Empty
| PIE_InvalidDigit
| PIE_PosOverflow.

(** [rand::distributions::WeightedError]. *)
Inductive WeightedError : Type :=
| NoItem
| InvalidWeight
| AllWeightsZero.

(** The places where the program can panic. *)
Inductive panic : Type :=
| PanicFormat                                 (* main, line 151 *)
| PanicSplit                                  (* main, line 159 *)
| PanicUnwrapWeight (e : ParseIntError)       (* main, line 165: from_str(..).unwrap() *)
| PanicDowncastString                         (* pick_random_uniform, line 84 *)
| PanicDowncastWeighted                       (* pick_random_weighted, line 107 *)
| PanicIndexOutOfBounds                       (* items[..] / choices[..] *)
| PanicUniformRange                           (* rand: Uniform::new with low >= high *)
| PanicAddOverflow                            (* u32 += overflow with overflow checks *)
| PanicUnwrapWeightedIndex (e : WeightedError) (* pick_random_weighted, line 114 *)
| PanicInvalidFormat.                         (* button callback, line 290 *)

Inductive outcome (A : Type) : Type :=
| Ret (a : A)
| Panic (p : panic).
Arguments Ret {A} a.
Arguments Panic {A} p.

Definition bind {A B : Type} (m : outcome A) (k : A -> outcome B) : outcome B :=
  match m with
  | Ret a => k a
  | Panic p => Panic p
  end.

Notation "x <- m ;; k" := (bind m (fun x => k))
  (at level 61, m at next level, right associativity).

(** ** Data model *)

(** The two implementors of [trait Loot] that the program boxes:
    [WeightedLoot { name, weight: u32 }] and [String]. *)
Inductive loot : Type :=
| WeightedLoot (name : string) (weight : N)
| StringLoot (name : string).

Definition u32_limit : N := 4294967296.

(** One item of [reader.lines()]: a decoded line or an I/O error. *)
Inductive io_line : Type :=
| LineOk (s : string)
| LineErr.

(** The two locals the parsing loop of [main] mutates. *)
Record state : Type := mkState {
  format : string;
  loot_table : list loot
}.

Definition init_state : state := mkState "" [].

(** ** String operations used by the parser *)

(** [line.starts_with('#')] *)
Definition starts_with_hash (s : string) : bool :=
  match s with
  | String c _ => Ascii.eqb c "#"
  | EmptyString => false
  end.

(** [line.split("!!")]: non-overlapping matches of the two-character
    pattern, scanned from the left.  [acc] is the token read so far. *)
Fixpoint split_bang_acc (s acc : string) : list string :=
  match s with
  | EmptyString => [acc]
  | String c rest =>
      if Ascii.eqb c "!" then
        match rest with
        | String c' rest' =>
            if Ascii.eqb c' "!" then acc :: split_bang_acc rest' ""
            else split_bang_acc rest (acc ++ String c EmptyString)
        | EmptyString => split_bang_acc rest (acc ++ String c EmptyString)
        end
      else split_bang_acc rest (acc ++ String c EmptyString)
  end.

Definition split_bang (s : string) : list string := split_bang_acc s "".

(** [char::to_digit(10)] *)
Definition to_digit (c : ascii) : option N :=
  let n := nat_of_ascii c in
  if ((48 <=? n) && (n <=? 57))%nat then Some (N.of_nat (n - 48)) else None.

(** The digit loop of [u32::from_str_radix(_, 10)]: checked multiply and
    add, the digit validated before the overflow is reported. *)
Fixpoint from_digits (acc : N) (s : string) : result N ParseIntError :=
  match s with
  | EmptyString => Ok acc
  | String c rest =>
      match to_digit c with
      | None => Err PIE_InvalidDigit
      | Some d =>
          let mul := (acc * 10)%N in
          if (mul <? u32_limit)%N then
            let r := (mul + d)%N in
            if (r <? u32_limit)%N then from_digits r rest else Err PIE_PosOverflow
          else Err PIE_PosOverflow
      end
  end.

(** [<u32 as FromStr>::from_str]: an empty string is [Empty]; a lone sign is
    [InvalidDigit]; one leading ['+'] is skipped; an unsigned type does not
    strip ['-'], which then fails as a digit. *)
Definition u32_from_str (s : string) : result N ParseIntError :=
  match s with
  | EmptyString => Err PIE_Empty
  | String c rest =>
      if Ascii.eqb c "+" then
        match rest with
        | EmptyString => Err PIE_InvalidDigit
        | _ => from_digits 0 rest
        end
      else if Ascii.eqb c "-" then
        match rest with
        | EmptyString => Err PIE_InvalidDigit
        | _ => from_digits 0 s
        end
      else from_digits 0 s
  end.

(** ** The parsing loop of [main] (lines 135-174) *)

Definition push (st : state) (l : loot) : state :=
  mkState (format st) (loot_table st ++ [l]).

(** One iteration of [for line in reader.lines()]. *)
Definition parse_step (st : state) (line : io_line) : outcome state :=
  match line with
  | LineErr => Ret st                              (* continue *)
  | LineOk l =>
      if starts_with_hash l then Ret st            (* comment *)
      else if String.eqb (format st) "" then
        (* format = String::from(&line); match format.as_str() *)
        if String.eqb l "Weighted" || String.eqb l "Uniform"
        then Ret (mkState l (loot_table st))
        else Panic PanicFormat
      else if String.eqb (format st) "Weighted" then
        let tokens := split_bang l in
        if negb (Nat.eqb (List.length tokens) 2) then Panic PanicSplit
        else
          match u32_from_str (nth 1 tokens "") with
          | Err e => Panic (PanicUnwrapWeight e)
          | Ok w => Ret (push st (WeightedLoot (nth 0 tokens "") w))
          end
      else if String.eqb (format st) "Uniform" then
        Ret (push st (StringLoot l))
      else Ret st
  end.

Fixpoint parse_from (st : state) (lines : list io_line) : outcome state :=
  match lines with
  | [] => Ret st
  | line :: rest => st' <- parse_step st line ;; parse_from st' rest
  end.

Definition parse (lines : list io_line) : outcome state :=
  parse_from init_state lines.

(** ** Selection (lines 79-116 and the button callback, lines 284-293) *)

(** The index [binary_search_by(..).unwrap_err()] returns for a predicate
    that holds on a prefix of the list and fails on the rest: the number of
    leading elements satisfying it. *)
Fixpoint partition_point {A : Type} (p : A -> bool) (l : list A) : nat :=
  match l with
  | [] => 0
  | x :: l' => if p x then S (partition_point p l') else 0
  end.

Section Selection.

(** Whether the crates are built with overflow checks (Cargo's dev profile)
    or without (release profile, u32 arithmetic wraps). *)
Variable overflow_checks : bool.

(** [total_weight += w] on [u32]. *)
Definition u32_add_assign (a b : N) : outcome N :=
  if (a + b <? u32_limit)%N then Ret (a + b)%N
  else if overflow_checks then Panic PanicAddOverflow
  else Ret (a + b - u32_limit)%N.

(** [rand::distributions::WeightedIndex<u32>]. *)
Record weighted_index : Type := mkWeightedIndex {
  cumulative_weights : list N;
  total_weight : N
}.

(** The loop of [WeightedIndex::new]: for each further weight [w],
    [weights.push(total_weight); total_weight += w].  Returns the pushed
    values (in push order) and the final total. *)
Fixpoint cumulate (total : N) (ws : list N) : outcome (list N * N) :=
  match ws with
  | [] => Ret ([], total)
  | w :: rest =>
      t' <- u32_add_assign total w ;;
      p <- cumulate t' rest ;;
      Ret (total :: fst p, snd p)
  end.

(** [WeightedIndex::new(&weights)]; the [InvalidWeight] test ([w < 0]) can
    never fire on [u32] and is left out. *)
Definition WeightedIndex_new (ws : list N) : outcome (result weighted_index WeightedError) :=
  match ws with
  | [] => Ret (Err NoItem)
  | w0 :: rest =>
      p <- cumulate w0 rest ;;
      if (snd p =? 0)%N then Ret (Err AllWeightsZero)
      else Ret (Ok (mkWeightedIndex (fst p) (snd p)))
  end.

(** [dist.sample(&mut rng)]: [r] is the value drawn uniformly from
    [[0, total_weight)]. *)
Definition WeightedIndex_sample (wi : weighted_index) (r : nat) : nat :=
  partition_point (fun c => (c <=? N.of_nat r)%N) (cumulative_weights wi).

(** The [for item in items] loop: downcast every box to [WeightedLoot] and
    collect [choices] and [weights]. *)
Fixpoint collect_weighted (items : list loot) : outcome (list string * list N) :=
  match items with
  | [] => Ret ([], [])
  | WeightedLoot n w :: rest =>
      p <- collect_weighted rest ;; Ret (n :: fst p, w :: snd p)
  | StringLoot _ :: _ => Panic PanicDowncastWeighted
  end.

Definition pick_random_weighted (items : list loot) (r : nat) : outcome string :=
  p <- collect_weighted items ;;
  d <- WeightedIndex_new (snd p) ;;
  match d with
  | Err e => Panic (PanicUnwrapWeightedIndex e)
  | Ok wi =>
      match nth_error (fst p) (WeightedIndex_sample wi r) with
      | Some s => Ret s
      | None => Panic PanicIndexOutOfBounds
      end
  end.

(** [Uniform::from(0..items.len())] asserts [0 < items.len()]; [r] is the
    index it samples from [[0, items.len())]. *)
Definition pick_random_uniform (items : list loot) (r : nat) : outcome string :=
  if Nat.eqb (List.length items) 0 then Panic PanicUniformRange
  else
    match nth_error items r with
    | None => Panic PanicIndexOutOfBounds
    | Some (StringLoot s) => Ret s
    | Some (WeightedLoot _ _) => Panic PanicDowncastString
    end.

(** The button callback: dispatch on [format]. *)
Definition pick_loot (st : state) (r : nat) : outcome string :=
  if String.eqb (format st) "Weighted" then pick_random_weighted (loot_table st) r
  else if String.eqb (format st) "Uniform" then pick_random_uniform (loot_table st) r
  else Panic PanicInvalidFormat.

End Selection.

(** ** Probabilities over a uniform draw *)

(** How many of the draws [0 .. bound-1] satisfy [f]; with the draw uniform
    on that range, [count_draws bound f / bound] is the probability of [f]. *)
Definition count_draws (bound : nat) (f : nat -> bool) : nat :=
  List.length (filter f (seq 0 bound)).

Definition entry_name (l : loot) : string :=
  match l with
  | WeightedLoot n _ => n
  | StringLoot n => n
  end.

Definition is_weighted (l : loot) : bool :=
  match l with WeightedLoot _ _ => true | StringLoot _ => false end.

Definition is_string (l : loot) : bool :=
  match l with StringLoot _ => true | WeightedLoot _ _ => false end.

Definition entry_weight (l : loot) : N :=
  match l with WeightedLoot _ w => w | StringLoot _ => 0%N end.

Definition sumN (ws : list N) : N := fold_right N.add 0%N ws.

Definition total_of (items : list loot) : N := sumN (map entry_weight items).

(** The values [WeightedIndex::new] pushes when no addition overflows:
    the running sums before each further weight. *)
Fixpoint prefixes (t : N) (ws : list N) : list N :=
  match ws with
  | [] => []
  | w :: ws' => t :: prefixes (t + w)%N ws'
  end.

(** Which weight a draw [r] falls into when the weights are laid end to
    end: [r] in [[w0 + .. + w(i-1), w0 + .. + wi)] gives [i]. *)
Fixpoint locate (ws : list N) (r : N) : nat :=
  match ws with
  | [] => 0
  | w :: ws' => if (r <? w)%N then 0 else S (locate ws' (r - w)%N)
  end.

(** ** Views of the input used to state the parser's properties *)

(** The first line that is read successfully and is not a comment, with
    the lines after it. *)
Fixpoint header_split (lines : list io_line) : option (string * list io_line) :=
  match lines with
  | [] => None
  | LineErr :: rest => header_split rest
  | LineOk l :: rest => if starts_with_hash l then header_split rest else Some (l, rest)
  end.

(** The lines that were read successfully. *)
Fixpoint readable (lines : list io_line) : list string :=
  match lines with
  | [] => []
  | LineErr :: rest => readable rest
  | LineOk l :: rest => l :: readable rest
  end.

(** A string made of one or more ASCII digits. *)
Fixpoint all_digits (s : string) : bool :=
  match s with
  | EmptyString => true
  | String c rest => match to_digit c with Some _ => all_digits rest | None => false end
  end.

Definition is_decimal (s : string) : bool :=
  match s with EmptyString => false | _ => all_digits s end.

(** What [u32::from_str] can accept: decimal digits, optionally after one
    ['+'] (the value must further fit in a [u32]). *)
Definition u32_literal_shape (s : string) : bool :=
  is_decimal s ||
  match s with
  | String c rest => Ascii.eqb c "+" && is_decimal rest
  | EmptyString => false
  end.

(** [tokens.join("!!")]: the inverse view of [split_bang]. *)
Fixpoint join_bang (l : list string) : string :=
  match l with
  | [] => ""
  | [x] => x
  | x :: rest => x ++ "!!" ++ join_bang rest
  end.

(** The value of a string of decimal digits, without any bound. *)
Fixpoint decimal_value_from (acc : N) (s : string) : N :=
  match s with
  | EmptyString => acc
  | String c rest =>
      match to_digit c with
      | Some d => decimal_value_from (acc * 10 + d)%N rest
      | None => acc
      end
  end.

Definition decimal_value (s : string) : N := decimal_value_from 0%N s.

(** Readable lines that are not comments. *)
Definition is_data_line (line : io_line) : bool :=
  match line with
  | LineOk s => negb (starts_with_hash s)
  | LineErr => false
  end.

Definition drop_comments (lines : list io_line) : list io_line :=
  filter (fun line => match line with
                      | LineOk s => negb (starts_with_hash s)
                      | LineErr => true
                      end) lines.

(** The entry a Weighted-mode data line produces when it is well formed. *)
Definition weighted_entry (l : string) : option loot :=
  match split_bang l with
  | [n; w] => match u32_from_str w with Ok v => Some (WeightedLoot n v) | Err _ => None end
  | _ => None
  end.

(** ** The form of [main] (lines 23-30 and 190-317) *)

(** [struct State]: the values shared by the callbacks.  The [i64] fields
    only receive values of the slider and the spinbox (range 1..100) or
    their initial 0, so their sums and differences never overflow. *)
Record ui_state : Type := mkUi {
  slider_val : Z;
  spinner_val : Z;
  entry_val : string;
  multi_val : string;
  loot_val : string
}.

Definition init_ui : ui_state := mkUi 0 0 "" "" "".

(** The five [Label] controls created at lines 236-240. *)
Inductive label_id : Type :=
| AddLabel | SubLabel | TextLabel | BigTextLabel | RandomItemLabel.

Definition label_id_eqb (a b : label_id) : bool :=
  match a, b with
  | AddLabel, AddLabel | SubLabel, SubLabel | TextLabel, TextLabel
  | BigTextLabel, BigTextLabel | RandomItemLabel, RandomItemLabel => true
  | _, _ => false
  end.

(** The text each label shows. *)
Definition labels : Type := label_id -> string.

Definition init_labels : labels := fun _ => "".

(** [label.set_text(&ui, t)]: a cloned handle acts on the same control. *)
Definition set_text (ls : labels) (id : label_id) (t : string) : labels :=
  fun id' => if label_id_eqb id id' then t else ls id'.

(** [format!("{}", v)] for an [i64]. *)
Definition i64_to_string (v : Z) : string := NilZero.string_of_int (Z.to_int v).

(** The [on_tick] closure (lines 299-316).  Its [random_item_label] is
    made from [bigtext_label.clone()] (line 305), so it names the
    multiline-text label, not the label created for the selected item. *)
Definition on_tick (s : ui_state) (ls : labels) : labels :=
  let add_label := AddLabel in
  let sub_label := SubLabel in
  let text_label := TextLabel in
  let bigtext_label := BigTextLabel in
  let random_item_label := BigTextLabel in
  let ls := set_text ls add_label ("Added: " ++ i64_to_string (slider_val s + spinner_val s)) in
  let ls := set_text ls sub_label ("Subtracted: " ++ i64_to_string (slider_val s - spinner_val s)) in
  let ls := set_text ls text_label ("Text: " ++ entry_val s) in
  let ls := set_text ls bigtext_label ("Multiline Text: " ++ multi_val s) in
  set_text ls random_item_label ("Selected Item: " ++ loot_val s).

(** The events the [on_changed] and [on_clicked] callbacks handle; a click
    carries the draw the selector takes. *)
Inductive ui_event : Type :=
| SliderChanged (v : Z)
| SpinnerChanged (v : Z)
| EntryChanged (v : string)
| MultiChanged (v : string)
| ButtonClicked (r : nat).

(** The callbacks of lines 264-293; [table] is the parsed loot table. *)
Definition on_event (oc : bool) (table : state) (s : ui_state) (e : ui_event) : outcome ui_state :=
  match e with
  | SliderChanged v => Ret (mkUi v (spinner_val s) (entry_val s) (multi_val s) (loot_val s))
  | SpinnerChanged v => Ret (mkUi (slider_val s) v (entry_val s) (multi_val s) (loot_val s))
  | EntryChanged v => Ret (mkUi (slider_val s) (spinner_val s) v (multi_val s) (loot_val s))
  | MultiChanged v => Ret (mkUi (slider_val s) (spinner_val s) (entry_val s) v (loot_val s))
  | ButtonClicked r =>
      name <- pick_loot oc table r ;;
      Ret (mkUi (slider_val s) (spinner_val s) (entry_val s) (multi_val s) name)
  end.

(** The event loop: each event is handled, then a tick redraws the labels. *)
Fixpoint run_events (oc : bool) (table : state) (s : ui_state) (ls : labels)
    (es : list ui_event) : outcome (ui_state * labels) :=
  match es with
  | [] => Ret (s, ls)
  | e :: rest =>
      s' <- on_event oc table s e ;;
      run_events oc table s' (on_tick s' ls) rest
  end.

(** * Proofs *)

(** ** Auxiliary lemmas on counting draws *)

Lemma filter_all_true {A : Type} (f : A -> bool) (l : list A) :
  (forall x, In x l -> f x = true) -> List.length (filter f l) = List.length l.
Proof.
  induction l as [|x l IH]; intros H; simpl; [reflexivity|].
  rewrite (H x (or_introl eq_refl)); simpl.
  rewrite IH; [reflexivity|]. intros y Hy; apply H; now right.
Qed.

Lemma filter_all_false {A : Type} (f : A -> bool) (l : list A) :
  (forall x, In x l -> f x = false) -> List.length (filter f l) = 0.
Proof.
  induction l as [|x l IH]; intros H; simpl; [reflexivity|].
  rewrite (H x (or_introl eq_refl)).
  apply IH. intros y Hy; apply H; now right.
Qed.

Lemma filter_seq_shift (f : nat -> bool) (k j m : nat) :
  List.length (filter f (seq (k + j) m)) =
  List.length (filter (fun r => f (k + r)) (seq j m)).
Proof.
  revert j; induction m as [|m IH]; intros j; simpl; [reflexivity|].
  replace (S (k + j)) with (k + S j) by lia.
  destruct (f (k + j)); simpl; rewrite IH; reflexivity.
Qed.

Lemma count_draws_app (a b : nat) (f : nat -> bool) :
  count_draws (a + b) f =
  List.length (filter f (seq 0 a)) + List.length (filter (fun r => f (a + r)) (seq 0 b)).
Proof.
  unfold count_draws. rewrite seq_app, filter_app, length_app.
  f_equal. rewrite <- (filter_seq_shift f a 0 b). now rewrite Nat.add_0_r.
Qed.

(** ** WeightedIndex without overflow *)

Lemma cumulate_no_overflow (oc : bool) (ws : list N) (t : N) :
  (t + sumN ws < u32_limit)%N ->
  cumulate oc t ws = Ret (prefixes t ws, (t + sumN ws)%N).
Proof.
  revert t; induction ws as [|w ws IH]; intros t Hlt; simpl in *.
  - now rewrite N.add_0_r.
  - unfold u32_add_assign.
    destruct (N.ltb_spec (t + w) u32_limit) as [Hw|Hw]; [|lia].
    simpl. rewrite IH by lia. simpl.
    now rewrite N.add_assoc.
Qed.

Lemma partition_point_prefixes (ws : list N) (base a r : N) :
  (base <= r)%N -> (r < base + a + sumN ws)%N ->
  partition_point (fun c => (c <=? r)%N) (prefixes (base + a) ws) =
  locate (a :: ws) (r - base).
Proof.
  revert base a; induction ws as [|w ws IH]; intros base a Hle Hlt; simpl in *.
  - destruct (N.ltb_spec (r - base) a); [reflexivity|lia].
  - destruct (N.leb_spec (base + a) r) as [H1|H1].
    + destruct (N.ltb_spec (r - base) a) as [H2|H2]; [lia|].
      f_equal.
      replace (r - base - a)%N with (r - (base + a))%N by lia.
      apply IH; lia.
    + destruct (N.ltb_spec (r - base) a); [reflexivity|lia].
Qed.

Lemma locate_lt_length (ws : list N) (r : N) :
  (r < sumN ws)%N -> locate ws r < List.length ws.
Proof.
  revert r; induction ws as [|w ws IH]; intros r Hr; simpl in *; [lia|].
  destruct (N.ltb_spec r w); [lia|].
  specialize (IH (r - w)%N ltac:(lia)). lia.
Qed.

Lemma count_locate (ws : list N) (i : nat) :
  i < List.length ws ->
  count_draws (N.to_nat (sumN ws)) (fun r => Nat.eqb (locate ws (N.of_nat r)) i) =
  N.to_nat (nth i ws 0%N).
Proof.
  revert i; induction ws as [|w ws IH]; intros i Hi; [simpl in Hi; lia|].
  change (sumN (w :: ws)) with (w + sumN ws)%N.
  rewrite N2Nat.inj_add, count_draws_app.
  rewrite (filter_ext_in _ (fun _ => Nat.eqb 0 i) (seq 0 (N.to_nat w))); cycle 1.
  { intros r Hr. apply in_seq in Hr. simpl.
    destruct (N.ltb_spec (N.of_nat r) w); [reflexivity|lia]. }
  rewrite (filter_ext_in _ (fun r => Nat.eqb (S (locate ws (N.of_nat r))) i)
             (seq 0 (N.to_nat (sumN ws)))); cycle 1.
  { intros r Hr. simpl.
    destruct (N.ltb_spec (N.of_nat (N.to_nat w + r)) w); [lia|].
    replace (N.of_nat (N.to_nat w + r) - w)%N with (N.of_nat r) by lia.
    reflexivity. }
  destruct i as [|j].
  - rewrite filter_all_true by reflexivity.
    rewrite filter_all_false by reflexivity.
    rewrite length_seq. simpl. lia.
  - rewrite filter_all_false by reflexivity. simpl.
    simpl in Hi. rewrite <- IH by lia. reflexivity.
Qed.

Lemma bind_ret {A B : Type} (a : A) (k : A -> outcome B) : bind (Ret a) k = k a.
Proof. reflexivity. Qed.

Lemma collect_weighted_ok (items : list loot) :
  Forall (fun l => is_weighted l = true) items ->
  collect_weighted items = Ret (map entry_name items, map entry_weight items).
Proof.
  induction 1 as [|x l Hx _ IH]; [reflexivity|].
  destruct x as [n w|n]; [|discriminate Hx].
  simpl. rewrite IH. reflexivity.
Qed.

Lemma WeightedIndex_new_fit (oc : bool) (w0 : N) (rest : list N) :
  (0 < sumN (w0 :: rest))%N -> (sumN (w0 :: rest) < u32_limit)%N ->
  WeightedIndex_new oc (w0 :: rest) =
  Ret (Ok (mkWeightedIndex (prefixes w0 rest) (sumN (w0 :: rest)))).
Proof.
  intros Hpos Hfit. simpl in *.
  rewrite cumulate_no_overflow by lia. simpl.
  destruct (N.eqb_spec (w0 + sumN rest) 0); [lia|reflexivity].
Qed.

Lemma WeightedIndex_sample_locate (w0 : N) (rest : list N) (t : N) (r : nat) :
  (N.of_nat r < sumN (w0 :: rest))%N ->
  WeightedIndex_sample (mkWeightedIndex (prefixes w0 rest) t) r =
  locate (w0 :: rest) (N.of_nat r).
Proof.
  intros Hr. unfold WeightedIndex_sample; simpl cumulative_weights.
  rewrite <- (N.add_0_l w0) at 1.
  rewrite partition_point_prefixes by (simpl in *; lia).
  now rewrite N.sub_0_r.
Qed.

(** ** C1: weighted selection *)

(** C1 (amended). For a Weighted-mode table whose weights sum to a positive
    total that fits in a [u32], in either build profile: [WeightedIndex::new]
    succeeds with that total; a draw [r] in [[0, total)] makes the selector
    return the name of entry [WeightedIndex_sample wi r]; exactly [weight_i]
    of the [total] draws select entry [i] (so its probability is
    [weight_i / total]); and no draw selects an entry of weight 0. *)
Theorem pick_random_weighted_proportional (oc : bool) (items : list loot)
  (Hw : Forall (fun l => is_weighted l = true) items)
  (Hpos : (0 < total_of items)%N) (Hfit : (total_of items < u32_limit)%N) :
  exists wi,
    WeightedIndex_new oc (map entry_weight items) = Ret (Ok wi) /\
    total_weight wi = total_of items /\
    (forall r, r < N.to_nat (total_of items) ->
       WeightedIndex_sample wi r < List.length items /\
       pick_random_weighted oc items r =
       Ret (entry_name (nth (WeightedIndex_sample wi r) items (StringLoot "")))) /\
    (forall i, i < List.length items ->
       count_draws (N.to_nat (total_of items))
         (fun r => Nat.eqb (WeightedIndex_sample wi r) i) =
       N.to_nat (entry_weight (nth i items (StringLoot "")))) /\
    (forall i r, r < N.to_nat (total_of items) ->
       entry_weight (nth i items (StringLoot "")) = 0%N ->
       WeightedIndex_sample wi r <> i).
Proof.
  unfold total_of in *.
  destruct items as [|x items']; [simpl in Hpos; lia|].
  remember (map entry_weight (x :: items')) as ws eqn:Hws.
  destruct ws as [|w0 rest]; [discriminate|].
  exists (mkWeightedIndex (prefixes w0 rest) (sumN (w0 :: rest))).
  assert (Hlen : List.length (w0 :: rest) = List.length (x :: items'))
    by (rewrite Hws; apply length_map).
  assert (Hsample : forall r, r < N.to_nat (sumN (w0 :: rest)) ->
            WeightedIndex_sample (mkWeightedIndex (prefixes w0 rest) (sumN (w0 :: rest))) r
            = locate (w0 :: rest) (N.of_nat r)).
  { intros r Hr. apply WeightedIndex_sample_locate. lia. }
  assert (Hcount : forall i, i < List.length (x :: items') ->
            count_draws (N.to_nat (sumN (w0 :: rest)))
              (fun r => Nat.eqb (WeightedIndex_sample
                 (mkWeightedIndex (prefixes w0 rest) (sumN (w0 :: rest))) r) i) =
            N.to_nat (entry_weight (nth i (x :: items') (StringLoot "")))).
  { intros i Hi.
    unfold count_draws.
    rewrite (filter_ext_in _ (fun r => Nat.eqb (locate (w0 :: rest) (N.of_nat r)) i));
      cycle 1.
    { intros r Hr. apply in_seq in Hr. rewrite Hsample by lia. reflexivity. }
    fold (count_draws (N.to_nat (sumN (w0 :: rest)))
            (fun r => Nat.eqb (locate (w0 :: rest) (N.of_nat r)) i)).
    rewrite count_locate by lia.
    change 0%N with (entry_weight (StringLoot "")).
    rewrite Hws, map_nth. reflexivity. }
  assert (Hidx : forall r, r < N.to_nat (sumN (w0 :: rest)) ->
            WeightedIndex_sample
              (mkWeightedIndex (prefixes w0 rest) (sumN (w0 :: rest))) r
            < List.length (x :: items')).
  { intros r Hr. rewrite Hsample by lia. rewrite <- Hlen.
    apply locate_lt_length. lia. }
  split; [now apply WeightedIndex_new_fit|].
  split; [reflexivity|].
  split; [|split; [exact Hcount|]].
  - intros r Hr. split; [now apply Hidx|].
    unfold pick_random_weighted.
    rewrite collect_weighted_ok by exact Hw. rewrite bind_ret. cbn beta.
    cbn [fst snd]. rewrite <- Hws.
    rewrite WeightedIndex_new_fit by assumption. rewrite bind_ret. cbn beta iota.
    rewrite nth_error_map, (nth_error_nth' _ (StringLoot "")) by (now apply Hidx).
    reflexivity.
  - intros i r Hr Hzero Heq.
    assert (Hi : i < List.length (x :: items')) by (rewrite <- Heq; now apply Hidx).
    specialize (Hcount i Hi). rewrite Hzero in Hcount. change (N.to_nat 0) with 0 in Hcount.
    unfold count_draws in Hcount. apply length_zero_iff_nil in Hcount.
    assert (Hin : In r (filter (fun r0 => Nat.eqb (WeightedIndex_sample
              (mkWeightedIndex (prefixes w0 rest) (sumN (w0 :: rest))) r0) i)
              (seq 0 (N.to_nat (sumN (w0 :: rest)))))).
    { apply filter_In. split; [apply in_seq; lia|]. rewrite Heq. apply Nat.eqb_refl. }
    rewrite Hcount in Hin. destruct Hin.
Qed.

Lemma pick_random_weighted_proportional_witness :
  Forall (fun l => is_weighted l = true) [WeightedLoot "a" 2; WeightedLoot "z" 0; WeightedLoot "b" 3] /\
  (0 < total_of [WeightedLoot "a" 2; WeightedLoot "z" 0; WeightedLoot "b" 3])%N /\
  (total_of [WeightedLoot "a" 2; WeightedLoot "z" 0; WeightedLoot "b" 3] < u32_limit)%N /\
  exists wi,
    WeightedIndex_new true (map entry_weight [WeightedLoot "a" 2; WeightedLoot "z" 0; WeightedLoot "b" 3])
      = Ret (Ok wi) /\
    count_draws 5 (fun r => Nat.eqb (WeightedIndex_sample wi r) 2) = 3.
Proof.
  assert (Hw : Forall (fun l => is_weighted l = true)
                 [WeightedLoot "a" 2; WeightedLoot "z" 0; WeightedLoot "b" 3])
    by (repeat constructor).
  assert (Hp : (0 < total_of [WeightedLoot "a" 2; WeightedLoot "z" 0; WeightedLoot "b" 3])%N)
    by reflexivity.
  assert (Hf : (total_of [WeightedLoot "a" 2; WeightedLoot "z" 0; WeightedLoot "b" 3] < u32_limit)%N)
    by reflexivity.
  split; [exact Hw|]. split; [exact Hp|]. split; [exact Hf|].
  destruct (pick_random_weighted_proportional true _ Hw Hp Hf) as [wi [Hnew [_ [_ [Hc _]]]]].
  exists wi. split; [exact Hnew|].
  exact (Hc 2 ltac:(simpl; lia)).
Defined.

(** C1 (as stated) fails once the weights' sum exceeds [u32::MAX]: for the
    entries [a] (weight 4294967295) and [b] (weight 2) the total is positive,
    yet [b] is not returned with probability [2 / 4294967297].  With overflow
    checks [total_weight += w] panics on every draw; without them the total
    wraps to 1, and the single draw returns [a]: [b] has probability 0. *)
Lemma pick_random_weighted_overflow_counterexample :
  Forall (fun l => is_weighted l = true) [WeightedLoot "a" 4294967295; WeightedLoot "b" 2] /\
  (0 < total_of [WeightedLoot "a" 4294967295; WeightedLoot "b" 2])%N /\
  (forall r, pick_random_weighted true [WeightedLoot "a" 4294967295; WeightedLoot "b" 2] r
             = Panic PanicAddOverflow) /\
  (exists wi,
     WeightedIndex_new false (map entry_weight [WeightedLoot "a" 4294967295; WeightedLoot "b" 2])
       = Ret (Ok wi) /\
     total_weight wi = 1%N /\
     count_draws (N.to_nat (total_weight wi)) (fun r => Nat.eqb (WeightedIndex_sample wi r) 1) = 0 /\
     pick_random_weighted false [WeightedLoot "a" 4294967295; WeightedLoot "b" 2] 0 = Ret "a").
Proof.
  split; [repeat constructor|].
  split; [reflexivity|].
  split; [intros r; reflexivity|].
  eexists. split; [reflexivity|]. split; [reflexivity|]. split; reflexivity.
Qed.

(** ** C2: uniform selection *)

Lemma count_draws_eq (n i : nat) :
  count_draws n (fun r => Nat.eqb r i) = if Nat.ltb i n then 1 else 0.
Proof.
  induction n as [|n IH]; [reflexivity|].
  unfold count_draws in *. rewrite seq_S, filter_app, length_app, IH. cbn [filter Nat.add].
  destruct (Nat.ltb_spec i n), (Nat.ltb_spec i (S n)), (Nat.eqb_spec n i);
    cbn [List.length]; lia.
Qed.

(** C2. For a Uniform-mode table (every entry a [String]) with [n >= 1]
    entries, the draw [r] taken from [[0, n)] makes the selector return the
    name of entry [r], which is one of the table's names; each entry is
    selected by exactly one of the [n] equally likely draws, i.e. with
    probability [1/n]. *)
Theorem pick_random_uniform_uniform (items : list loot)
  (Hs : Forall (fun l => is_string l = true) items)
  (Hn : 1 <= List.length items) :
  (forall r, r < List.length items ->
     pick_random_uniform items r = Ret (entry_name (nth r items (StringLoot ""))) /\
     In (entry_name (nth r items (StringLoot ""))) (map entry_name items)) /\
  (forall i, i < List.length items ->
     count_draws (List.length items) (fun r => Nat.eqb r i) = 1).
Proof.
  split.
  - intros r Hr. split.
    + unfold pick_random_uniform.
      destruct (Nat.eqb_spec (List.length items) 0) as [H0|_]; [lia|].
      rewrite (nth_error_nth' _ (StringLoot "") Hr).
      assert (Hin : In (nth r items (StringLoot "")) items) by (apply nth_In; exact Hr).
      rewrite Forall_forall in Hs. specialize (Hs _ Hin).
      destruct (nth r items (StringLoot "")) as [n w|n]; [discriminate Hs|reflexivity].
    + apply in_map, nth_In, Hr.
  - intros i Hi. rewrite count_draws_eq.
    destruct (Nat.ltb_spec i (List.length items)); [reflexivity|lia].
Qed.

Lemma pick_random_uniform_uniform_witness :
  Forall (fun l => is_string l = true) [StringLoot "sword"; StringLoot "shield"; StringLoot "potion"] /\
  pick_random_uniform [StringLoot "sword"; StringLoot "shield"; StringLoot "potion"] 1 = Ret "shield".
Proof.
  assert (Hs : Forall (fun l => is_string l = true)
                 [StringLoot "sword"; StringLoot "shield"; StringLoot "potion"])
    by (repeat constructor).
  split; [exact Hs|].
  destruct (pick_random_uniform_uniform _ Hs ltac:(simpl; lia)) as [H _].
  exact (proj1 (H 1 ltac:(simpl; lia))).
Defined.

(** ** C6: selection on an empty table *)

(** C6 (amended). Selecting from a table with no entries never returns a
    name: in Uniform mode rand's [Uniform::new] assertion [0 < len] panics,
    in Weighted mode [WeightedIndex::new] reports [NoItem] and the [unwrap]
    panics. *)
Theorem pick_loot_empty_table_panics (oc : bool) (st : state) (r : nat)
  (Hempty : loot_table st = []) :
  (format st = "Uniform" -> pick_loot oc st r = Panic PanicUniformRange) /\
  (format st = "Weighted" -> pick_loot oc st r = Panic (PanicUnwrapWeightedIndex NoItem)).
Proof.
  unfold pick_loot. rewrite Hempty.
  split; intros Hf; rewrite Hf; reflexivity.
Qed.

Lemma pick_loot_empty_table_panics_witness :
  loot_table (mkState "Uniform" []) = [] /\
  pick_loot true (mkState "Uniform" []) 0 = Panic PanicUniformRange.
Proof.
  split; [reflexivity|].
  exact (proj1 (pick_loot_empty_table_panics true (mkState "Uniform" []) 0 eq_refl) eq_refl).
Defined.

(** C6 (as stated) fails: the tables parsed from a comment and a valid
    header are empty, and selecting from them yields no value at all (no
    [EmptyTable] result): the process panics, in both modes. *)
Lemma pick_loot_empty_table_counterexample :
  parse [LineOk "# nothing here"; LineOk "Uniform"] = Ret (mkState "Uniform" []) /\
  parse [LineOk "# nothing here"; LineOk "Weighted"] = Ret (mkState "Weighted" []) /\
  (forall oc r s, pick_loot oc (mkState "Uniform" []) r <> Ret s) /\
  (forall oc r s, pick_loot oc (mkState "Weighted" []) r <> Ret s).
Proof.
  split; [reflexivity|]. split; [reflexivity|].
  split; intros oc r s; discriminate.
Qed.

(** ** C7: all weights zero *)

Lemma sumN_zeros (ws : list N) :
  Forall (fun w => w = 0%N) ws -> sumN ws = 0%N.
Proof. induction 1 as [|w ws Hw _ IH]; simpl; [reflexivity|]. rewrite Hw, IH. reflexivity. Qed.

(** C7 (amended). For a non-empty Weighted-mode table whose weights are all
    zero, [WeightedIndex::new] returns [AllWeightsZero] (no addition
    overflows and nothing is divided) and the [unwrap] panics: the
    selection never returns a name, whatever the draw and the profile. *)
Theorem pick_random_weighted_all_zero_panics (oc : bool) (items : list loot) (r : nat)
  (Hne : items <> [])
  (Hw : Forall (fun l => is_weighted l = true) items)
  (Hz : Forall (fun l => entry_weight l = 0%N) items) :
  WeightedIndex_new oc (map entry_weight items) = Ret (Err AllWeightsZero) /\
  pick_random_weighted oc items r = Panic (PanicUnwrapWeightedIndex AllWeightsZero).
Proof.
  assert (Hnew : WeightedIndex_new oc (map entry_weight items) = Ret (Err AllWeightsZero)).
  { assert (Hzs : Forall (fun w => w = 0%N) (map entry_weight items))
      by (apply Forall_map; exact Hz).
    destruct (map entry_weight items) as [|w0 rest] eqn:Hm.
    - destruct items; [contradiction|discriminate].
    - inversion Hzs as [|? ? Hw0 Hrest]; subst w0.
      simpl. rewrite cumulate_no_overflow by (rewrite sumN_zeros by exact Hrest; reflexivity).
      simpl. rewrite sumN_zeros by exact Hrest. reflexivity. }
  split; [exact Hnew|].
  unfold pick_random_weighted. rewrite collect_weighted_ok by exact Hw.
  rewrite bind_ret. cbn [snd]. rewrite Hnew. reflexivity.
Qed.

Lemma pick_random_weighted_all_zero_panics_witness :
  pick_random_weighted false [WeightedLoot "sword" 0; WeightedLoot "shield" 0] 0
  = Panic (PanicUnwrapWeightedIndex AllWeightsZero).
Proof.
  exact (proj2 (pick_random_weighted_all_zero_panics false
                  [WeightedLoot "sword" 0; WeightedLoot "shield" 0] 0
                  ltac:(discriminate) ltac:(repeat constructor) ltac:(repeat constructor))).
Defined.

(** C7 (as stated) fails: the table parsed from
    ["Weighted\nsword!!0\nshield!!0"] makes the selection panic instead of
    returning an [AllZeroWeights] error value. *)
Lemma pick_loot_all_zero_counterexample :
  parse [LineOk "Weighted"; LineOk "sword!!0"; LineOk "shield!!0"]
    = Ret (mkState "Weighted" [WeightedLoot "sword" 0; WeightedLoot "shield" 0]) /\
  (forall oc r, pick_loot oc (mkState "Weighted" [WeightedLoot "sword" 0; WeightedLoot "shield" 0]) r
                = Panic (PanicUnwrapWeightedIndex AllWeightsZero)) /\
  (forall oc r s, pick_loot oc (mkState "Weighted" [WeightedLoot "sword" 0; WeightedLoot "shield" 0]) r
                  <> Ret s).
Proof.
  split; [reflexivity|].
  split; intros oc r; [|intros s]; destruct oc; discriminate || reflexivity.
Qed.

(** ** The parsing loop *)

Lemma parse_from_app (st : state) (a b : list io_line) :
  parse_from st (a ++ b) = (st' <- parse_from st a ;; parse_from st' b).
Proof.
  revert st; induction a as [|line a IH]; intros st; cbn [app parse_from]; [reflexivity|].
  destruct (parse_step st line); cbn [bind]; [apply IH|reflexivity].
Qed.

Lemma parse_from_readable (st : state) (lines : list io_line) :
  parse_from st lines = parse_from st (map LineOk (readable lines)).
Proof.
  revert st; induction lines as [|[l|] rest IH]; intros st;
    cbn [parse_from readable map]; [reflexivity| |apply IH].
  destruct (parse_step st (LineOk l)); cbn [bind]; [apply IH|reflexivity].
Qed.

(** Before the header, only comments and unreadable lines are consumed. *)
Lemma parse_from_header (st : state) (lines : list io_line) :
  format st = "" ->
  parse_from st lines =
  match header_split lines with
  | None => Ret st
  | Some (h, rest) =>
      if String.eqb h "Weighted" || String.eqb h "Uniform"
      then parse_from (mkState h (loot_table st)) rest
      else Panic PanicFormat
  end.
Proof.
  intros Hf. induction lines as [|[l|] rest IH]; simpl; [reflexivity| |exact IH].
  destruct (starts_with_hash l); [exact IH|].
  rewrite Hf. simpl.
  destruct (String.eqb l "Weighted" || String.eqb l "Uniform"); reflexivity.
Qed.

(** Once the format is set, a step keeps it and never fails on the header. *)
Lemma parse_step_format (st st' : state) (line : io_line) :
  format st <> "" -> parse_step st line = Ret st' -> format st' = format st.
Proof.
  intros Hf Hs. destruct line as [l|]; simpl in Hs; [|congruence].
  destruct (starts_with_hash l); [congruence|].
  destruct (String.eqb_spec (format st) "") as [E|_]; [contradiction|].
  destruct (String.eqb (format st) "Weighted").
  - destruct (negb _); [discriminate|].
    destruct (u32_from_str _); [|discriminate]. inversion Hs. reflexivity.
  - destruct (String.eqb (format st) "Uniform"); inversion Hs; reflexivity.
Qed.

Lemma parse_step_no_format_panic (st : state) (line : io_line) :
  format st <> "" -> parse_step st line <> Panic PanicFormat.
Proof.
  intros Hf. destruct line as [l|]; simpl; [|discriminate].
  destruct (starts_with_hash l); [discriminate|].
  destruct (String.eqb_spec (format st) "") as [E|_]; [contradiction|].
  destruct (String.eqb (format st) "Weighted").
  - destruct (negb _); [discriminate|]. destruct (u32_from_str _); discriminate.
  - destruct (String.eqb (format st) "Uniform"); discriminate.
Qed.

Lemma parse_from_no_format_panic (st : state) (lines : list io_line) :
  format st <> "" -> parse_from st lines <> Panic PanicFormat.
Proof.
  revert st; induction lines as [|line rest IH]; intros st Hf; cbn [parse_from]; [discriminate|].
  destruct (parse_step st line) as [st'|p] eqn:Hs; cbn [bind].
  - apply IH. rewrite (parse_step_format st st' line Hf Hs). exact Hf.
  - intros E. inversion E; subst p. exact (parse_step_no_format_panic st line Hf Hs).
Qed.

(** ** C3: the header line *)

(** C3. [parse] panics at the format check (the [InvalidFormatHeader]
    failure) exactly when the first readable non-comment line exists and is
    neither ["Weighted"] nor ["Uniform"] (compared case-sensitively); when it
    is one of them, it becomes the table's format and adds no entry: the
    rest of the input is parsed from that format and an empty table. *)
Theorem parse_header (lines : list io_line) :
  (parse lines = Panic PanicFormat <->
   exists h rest, header_split lines = Some (h, rest) /\ h <> "Weighted" /\ h <> "Uniform") /\
  (forall h rest, header_split lines = Some (h, rest) ->
     h = "Weighted" \/ h = "Uniform" ->
     parse lines = parse_from (mkState h []) rest).
Proof.
  unfold parse. rewrite parse_from_header by reflexivity.
  destruct (header_split lines) as [[h rest]|].
  - split.
    + split.
      * intros H.
        destruct (String.eqb_spec h "Weighted") as [E1|E1];
          [exfalso; refine (parse_from_no_format_panic _ rest _ H); simpl; rewrite E1; discriminate|].
        destruct (String.eqb_spec h "Uniform") as [E2|E2];
          [exfalso; refine (parse_from_no_format_panic _ rest _ H); simpl; rewrite E2; discriminate|].
        exists h, rest. auto.
      * intros [h' [rest' [Heq [H1 H2]]]]. inversion Heq; subst h' rest'.
        destruct (String.eqb_spec h "Weighted"); [contradiction|].
        destruct (String.eqb_spec h "Uniform"); [contradiction|].
        reflexivity.
    + intros h' rest' Heq Hh. inversion Heq; subst h' rest'.
      destruct Hh as [-> | ->]; reflexivity.
  - split.
    + split; [discriminate|]. intros [h [rest [H _]]]; discriminate.
    + intros h rest H; discriminate.
Qed.

Lemma parse_header_witness :
  header_split [LineOk "# loot"; LineErr; LineOk "weighted"; LineOk "sword!!1"]
    = Some ("weighted", [LineOk "sword!!1"]) /\
  parse [LineOk "# loot"; LineErr; LineOk "weighted"; LineOk "sword!!1"] = Panic PanicFormat /\
  parse [LineOk "# loot"; LineOk "Uniform"; LineOk "sword"]
    = parse_from (mkState "Uniform" []) [LineOk "sword"].
Proof.
  split; [reflexivity|]. split.
  - apply (proj2 (proj1 (parse_header [LineOk "# loot"; LineErr; LineOk "weighted"; LineOk "sword!!1"]))).
    exists "weighted", [LineOk "sword!!1"]. split; [reflexivity|]. split; discriminate.
  - apply (proj2 (parse_header [LineOk "# loot"; LineOk "Uniform"; LineOk "sword"])).
    + reflexivity.
    + right; reflexivity.
Defined.

(** ** C8: parsed tables are homogeneous *)

Definition homogeneous (st : state) : Prop :=
  (format st = "" /\ loot_table st = []) \/
  (format st = "Weighted" /\ Forall (fun l => is_weighted l = true) (loot_table st)) \/
  (format st = "Uniform" /\ Forall (fun l => is_string l = true) (loot_table st)).

Lemma parse_step_homogeneous (st st' : state) (line : io_line) :
  homogeneous st -> parse_step st line = Ret st' -> homogeneous st'.
Proof.
  intros Hh Hs. destruct line as [l|]; cbn [parse_step] in Hs; [|inversion Hs; subst; exact Hh].
  destruct (starts_with_hash l); [inversion Hs; subst; exact Hh|].
  destruct Hh as [[Hf Ht] | [[Hf Ht] | [Hf Ht]]]; rewrite Hf in Hs; cbn in Hs.
  - destruct (String.eqb_spec l "Weighted") as [->|_].
    + inversion Hs; subst. right; left. simpl. rewrite Ht. auto.
    + destruct (String.eqb_spec l "Uniform") as [->|_]; [|discriminate].
      inversion Hs; subst. right; right. simpl. rewrite Ht. auto.
  - destruct (negb _); [discriminate|].
    destruct (u32_from_str _); [|discriminate].
    inversion Hs; subst. right; left. unfold push; simpl. split; [exact Hf|].
    apply Forall_app. split; [exact Ht|]. repeat constructor.
  - inversion Hs; subst. right; right. unfold push; simpl. split; [exact Hf|].
    apply Forall_app. split; [exact Ht|]. repeat constructor.
Qed.

Lemma parse_from_homogeneous (st st' : state) (lines : list io_line) :
  homogeneous st -> parse_from st lines = Ret st' -> homogeneous st'.
Proof.
  revert st; induction lines as [|line rest IH]; intros st Hh Hp; cbn [parse_from] in Hp.
  - inversion Hp; subst; exact Hh.
  - destruct (parse_step st line) as [st1|p] eqn:Hs; cbn [bind] in Hp; [|discriminate].
    exact (IH st1 (parse_step_homogeneous st st1 line Hh Hs) Hp).
Qed.

Lemma cumulate_panic (oc : bool) (t : N) (ws : list N) (p : panic) :
  cumulate oc t ws = Panic p -> p = PanicAddOverflow.
Proof.
  revert t; induction ws as [|w ws IH]; intros t H; cbn [cumulate] in H; [discriminate|].
  unfold u32_add_assign in H.
  destruct (t + w <? u32_limit)%N.
  - cbn [bind] in H. destruct (cumulate oc (t + w)%N ws) eqn:Hc; cbn [bind] in H;
      [discriminate|].
    inversion H; subst. eapply IH; exact Hc.
  - destruct oc; cbn [bind] in H; [inversion H; reflexivity|].
    destruct (cumulate false _ ws) eqn:Hc; cbn [bind] in H; [discriminate|].
    inversion H; subst. eapply IH; exact Hc.
Qed.

Lemma WeightedIndex_new_panic (oc : bool) (ws : list N) (p : panic) :
  WeightedIndex_new oc ws = Panic p -> p = PanicAddOverflow.
Proof.
  destruct ws as [|w0 rest]; cbn [WeightedIndex_new]; [discriminate|].
  destruct (cumulate oc w0 rest) eqn:Hc; cbn [bind].
  - destruct (snd a =? 0)%N; discriminate.
  - intros H; inversion H; subst. eapply cumulate_panic; exact Hc.
Qed.

(** C8. Every table a successful [parse] builds is homogeneous: in
    Weighted mode every entry is a [WeightedLoot], in Uniform mode every
    entry is a [String]; so, whatever the draw and the build profile,
    selecting from it never reaches the failed-downcast panic of
    [pick_random_weighted] nor that of [pick_random_uniform]. *)
Theorem parse_homogeneous (lines : list io_line) (st : state)
  (Hp : parse lines = Ret st) :
  (format st = "Weighted" -> Forall (fun l => is_weighted l = true) (loot_table st)) /\
  (format st = "Uniform" -> Forall (fun l => is_string l = true) (loot_table st)) /\
  (forall oc r, pick_loot oc st r <> Panic PanicDowncastWeighted /\
                pick_loot oc st r <> Panic PanicDowncastString).
Proof.
  assert (Hh : homogeneous st).
  { apply (parse_from_homogeneous init_state st lines); [left; split; reflexivity|exact Hp]. }
  destruct Hh as [[Hf Ht] | [[Hf Ht] | [Hf Ht]]]; rewrite Hf.
  - split; [discriminate|]. split; [discriminate|].
    intros oc r. unfold pick_loot. rewrite Hf. cbn. split; discriminate.
  - split; [intros _; exact Ht|]. split; [discriminate|].
    intros oc r. unfold pick_loot. rewrite Hf. cbn [String.eqb Ascii.eqb Bool.eqb].
    unfold pick_random_weighted. rewrite collect_weighted_ok by exact Ht.
    rewrite bind_ret. cbn [snd fst].
    destruct (WeightedIndex_new oc (map entry_weight (loot_table st))) as [[wi|e]|p] eqn:Hn;
      cbn [bind].
    + destruct (nth_error _ _); split; discriminate.
    + split; discriminate.
    + apply WeightedIndex_new_panic in Hn. subst p. split; discriminate.
  - split; [discriminate|]. split; [intros _; exact Ht|].
    intros oc r. unfold pick_loot. rewrite Hf. cbn [String.eqb Ascii.eqb Bool.eqb].
    unfold pick_random_uniform.
    destruct (Nat.eqb _ 0); [split; discriminate|].
    destruct (nth_error (loot_table st) r) as [l|] eqn:Hl; [|split; discriminate].
    apply nth_error_In in Hl. rewrite Forall_forall in Ht. specialize (Ht l Hl).
    destruct l as [n w|n]; [discriminate Ht|split; discriminate].
Qed.

Lemma parse_homogeneous_witness :
  parse [LineOk "Weighted"; LineOk "sword!!10"; LineOk "shield!!5"]
    = Ret (mkState "Weighted" [WeightedLoot "sword" 10; WeightedLoot "shield" 5]) /\
  Forall (fun l => is_weighted l = true) [WeightedLoot "sword" 10; WeightedLoot "shield" 5].
Proof.
  assert (Hp : parse [LineOk "Weighted"; LineOk "sword!!10"; LineOk "shield!!5"]
    = Ret (mkState "Weighted" [WeightedLoot "sword" 10; WeightedLoot "shield" 5]))
    by reflexivity.
  split; [exact Hp|].
  exact (proj1 (parse_homogeneous _ _ Hp) eq_refl).
Defined.

(** ** C4, C5: malformed weighted lines *)

Lemma parse_app_step (pre rest : list io_line) (st : state) (line : io_line) :
  parse pre = Ret st ->
  parse (pre ++ line :: rest) = (st' <- parse_step st line ;; parse_from st' rest).
Proof.
  intros Hpre. unfold parse in *. rewrite parse_from_app, Hpre. reflexivity.
Qed.

(** C4 (amended). In Weighted mode, a data line (readable, not a comment)
    that [split("!!")] cuts into a number of tokens other than two makes
    the program panic at line 159, whatever follows it: no table is
    produced, and no error value is returned either. *)
Theorem parse_malformed_weighted_line_panics (pre rest : list io_line) (st : state) (l : string)
  (Hpre : parse pre = Ret st) (Hf : format st = "Weighted")
  (Hc : starts_with_hash l = false) (Hn : List.length (split_bang l) <> 2) :
  parse (pre ++ LineOk l :: rest) = Panic PanicSplit.
Proof.
  rewrite (parse_app_step pre rest st (LineOk l) Hpre).
  unfold parse_step. rewrite Hc, Hf.
  replace (Nat.eqb (List.length (split_bang l)) 2) with false
    by (symmetry; apply Nat.eqb_neq; exact Hn).
  reflexivity.
Qed.

Lemma parse_malformed_weighted_line_panics_witness :
  parse ([LineOk "Weighted"] ++ LineOk "sword-10" :: [LineOk "shield!!5"]) = Panic PanicSplit.
Proof.
  exact (parse_malformed_weighted_line_panics [LineOk "Weighted"] [LineOk "shield!!5"]
           (mkState "Weighted" []) "sword-10" eq_refl eq_refl eq_refl ltac:(discriminate)).
Defined.

(** C4 (as stated) fails: ["Weighted\nsword-10"] does not yield a
    recoverable [MalformedWeightedLine] value; the program panics. *)
Lemma parse_malformed_weighted_line_counterexample :
  parse [LineOk "Weighted"; LineOk "sword-10"] = Panic PanicSplit /\
  (forall st, parse [LineOk "Weighted"; LineOk "sword-10"] <> Ret st).
Proof. split; [reflexivity|intros st; discriminate]. Qed.

Lemma from_digits_ok (acc n : N) (s : string) :
  from_digits acc s = Ok n -> all_digits s = true.
Proof.
  revert acc; induction s as [|c s IH]; intros acc H; [reflexivity|].
  simpl in *. destruct (to_digit c) as [d|]; [|discriminate].
  destruct (acc * 10 <? u32_limit)%N; [|discriminate].
  destruct (acc * 10 + d <? u32_limit)%N; [|discriminate].
  exact (IH _ H).
Qed.

Lemma u32_from_str_shape (s : string) (n : N) :
  u32_from_str s = Ok n -> u32_literal_shape s = true.
Proof.
  destruct s as [|c r]; [discriminate|]. unfold u32_from_str, u32_literal_shape.
  destruct (Ascii.eqb c "+") eqn:Ep.
  - destruct r as [|c' r']; [discriminate|].
    intros H. apply from_digits_ok in H.
    apply orb_true_intro; right. simpl. exact H.
  - destruct (Ascii.eqb c "-").
    + destruct r as [|c' r']; [discriminate|].
      intros H. apply from_digits_ok in H. apply orb_true_intro; left. exact H.
    + intros H. apply from_digits_ok in H. apply orb_true_intro; left. exact H.
Qed.

(** C5 (amended). In Weighted mode, a data line that splits into a name and
    a weight token that is not a [u32] literal (digits after an optional
    ['+']: so any non-integer text and any negative number) makes
    [from_str(..).unwrap()] panic at line 165, whatever follows: the process
    aborts instead of returning an [InvalidWeight] value. *)
Theorem parse_invalid_weight_panics (pre rest : list io_line) (st : state)
  (l name wt : string)
  (Hpre : parse pre = Ret st) (Hf : format st = "Weighted")
  (Hc : starts_with_hash l = false) (Hs : split_bang l = [name; wt])
  (Hbad : u32_literal_shape wt = false) :
  exists e, u32_from_str wt = Err e /\
            parse (pre ++ LineOk l :: rest) = Panic (PanicUnwrapWeight e).
Proof.
  destruct (u32_from_str wt) as [n|e] eqn:Hw.
  - apply u32_from_str_shape in Hw. congruence.
  - exists e. split; [reflexivity|].
    rewrite (parse_app_step pre rest st (LineOk l) Hpre).
    unfold parse_step. rewrite Hc, Hf, Hs. cbn [List.length nth].
    rewrite Hw. reflexivity.
Qed.

Lemma parse_invalid_weight_panics_witness :
  exists e, u32_from_str "-5" = Err e /\
            parse ([LineOk "Weighted"] ++ LineOk "sword!!-5" :: []) = Panic (PanicUnwrapWeight e).
Proof.
  exact (parse_invalid_weight_panics [LineOk "Weighted"] [] (mkState "Weighted" [])
           "sword!!-5" "sword" "-5" eq_refl eq_refl eq_refl eq_refl eq_refl).
Defined.

(** C5 (as stated) fails: a negative weight does not yield a recoverable
    [InvalidWeight] value; the program panics. *)
Lemma parse_invalid_weight_counterexample :
  parse [LineOk "Weighted"; LineOk "sword!!-5"] = Panic (PanicUnwrapWeight PIE_InvalidDigit) /\
  (forall st, parse [LineOk "Weighted"; LineOk "sword!!-5"] <> Ret st).
Proof. split; [reflexivity|intros st; discriminate]. Qed.

(** ** C9: unreadable lines *)

(** C9. Lines that [reader.lines()] fails to read are skipped: [parse]
    gives the same result on the input as on its readable lines alone.  A
    readable line on which the loop panics stays fatal: the whole parse
    panics, whatever follows. *)
Theorem parse_skips_unreadable (lines : list io_line) :
  parse lines = parse (map LineOk (readable lines)) /\
  (forall pre rest st l p,
     parse pre = Ret st -> parse_step st (LineOk l) = Panic p ->
     parse (pre ++ LineOk l :: rest) = Panic p).
Proof.
  split.
  - unfold parse. apply parse_from_readable.
  - intros pre rest st l p Hpre Hs.
    rewrite (parse_app_step pre rest st (LineOk l) Hpre), Hs. reflexivity.
Qed.

Lemma parse_skips_unreadable_witness :
  parse [LineOk "Uniform"; LineErr; LineOk "sword"; LineErr]
    = parse [LineOk "Uniform"; LineOk "sword"] /\
  parse ([LineOk "Weighted"; LineErr] ++ LineOk "sword" :: [LineOk "shield!!1"])
    = Panic PanicSplit.
Proof.
  split.
  - exact (proj1 (parse_skips_unreadable [LineOk "Uniform"; LineErr; LineOk "sword"; LineErr])).
  - exact (proj2 (parse_skips_unreadable []) [LineOk "Weighted"; LineErr] [LineOk "shield!!1"]
             (mkState "Weighted" []) "sword" PanicSplit eq_refl eq_refl).
Defined.

(** ** C10: blank data lines *)

(** C10. A blank data line is not skipped: in Uniform mode it adds an
    entry named [""], which a draw selects like any other entry; in
    Weighted mode [split("!!")] turns it into the single token [""], and
    the loop panics on it (the malformed-line failure). *)
Theorem blank_line_handling (st : state) :
  (format st = "Uniform" -> parse_step st (LineOk "") = Ret (push st (StringLoot ""))) /\
  (format st = "Weighted" ->
     split_bang "" = [""] /\ parse_step st (LineOk "") = Panic PanicSplit) /\
  (forall items k, nth_error items k = Some (StringLoot "") ->
     pick_random_uniform items k = Ret "").
Proof.
  split; [intros Hf; unfold parse_step; rewrite Hf; reflexivity|].
  split; [intros Hf; split; [reflexivity|]; unfold parse_step; rewrite Hf; reflexivity|].
  intros items k Hk. unfold pick_random_uniform.
  destruct (Nat.eqb_spec (List.length items) 0) as [H0|_].
  - apply length_zero_iff_nil in H0. subst items. destruct k; discriminate.
  - rewrite Hk. reflexivity.
Qed.

Lemma blank_line_handling_witness :
  parse [LineOk "Uniform"; LineOk "sword"; LineOk ""]
    = Ret (mkState "Uniform" [StringLoot "sword"; StringLoot ""]) /\
  pick_random_uniform [StringLoot "sword"; StringLoot ""] 1 = Ret "" /\
  parse_step (mkState "Weighted" []) (LineOk "") = Panic PanicSplit.
Proof.
  split; [reflexivity|]. split.
  - exact (proj2 (proj2 (blank_line_handling (mkState "Uniform" [])))
             [StringLoot "sword"; StringLoot ""] 1 eq_refl).
  - exact (proj2 (proj1 (proj2 (blank_line_handling (mkState "Weighted" []))) eq_refl)).
Defined.

(** * Further properties of the program *)

(** ** [split("!!")] *)

Lemma string_app_nil_r (s : string) : s ++ "" = s.
Proof. induction s as [|c s IH]; simpl; [reflexivity|now rewrite IH]. Qed.

Lemma string_app_assoc (a b c : string) : (a ++ b) ++ c = a ++ (b ++ c).
Proof. induction a as [|x a IH]; simpl; [reflexivity|now rewrite IH]. Qed.

Lemma split_bang_acc_cons (s acc : string) :
  exists x rest, split_bang_acc s acc = x :: rest.
Proof.
  remember (String.length s) as n eqn:Hn. assert (Hle : String.length s <= n) by lia.
  clear Hn. revert s acc Hle; induction n as [|n IH]; intros s acc Hle.
  - destruct s; [eexists; eexists; reflexivity|simpl in Hle; lia].
  - destruct s as [|c rest]; [eexists; eexists; reflexivity|]. simpl in Hle |- *.
    destruct (Ascii.eqb c "!"); [destruct rest as [|c' rest']|];
      [apply IH; simpl; lia| |apply IH; lia].
    destruct (Ascii.eqb c' "!"); [eexists; eexists; reflexivity|apply IH; simpl in *; lia].
Qed.

Lemma join_split_bang_acc (s acc : string) :
  join_bang (split_bang_acc s acc) = acc ++ s.
Proof.
  remember (String.length s) as n eqn:Hn. assert (Hle : String.length s <= n) by lia.
  clear Hn. revert s acc Hle; induction n as [|n IH]; intros s acc Hle.
  - destruct s; [simpl; now rewrite string_app_nil_r|simpl in Hle; lia].
  - destruct s as [|c rest]; [simpl; now rewrite string_app_nil_r|]. simpl in Hle.
    cbn [split_bang_acc].
    assert (Hstep : join_bang (split_bang_acc rest (acc ++ String c "")) = acc ++ String c rest).
    { rewrite IH by lia. rewrite string_app_assoc. reflexivity. }
    destruct (Ascii.eqb c "!") eqn:E1; [|exact Hstep].
    destruct rest as [|c' rest']; [exact Hstep|].
    destruct (Ascii.eqb c' "!") eqn:E2; [|exact Hstep].
    apply Ascii.eqb_eq in E1, E2. subst c c'.
    destruct (split_bang_acc_cons rest' "") as [x [r Hxr]].
    change (join_bang (acc :: split_bang_acc rest' "")) with
      (match split_bang_acc rest' "" with
       | [] => acc
       | _ => acc ++ "!!" ++ join_bang (split_bang_acc rest' "")
       end).
    rewrite Hxr. rewrite <- Hxr. rewrite IH by (simpl in Hle; lia). reflexivity.
Qed.

(** X1: joining the tokens of [line.split("!!")] with ["!!"] gives back the
    line, and the split always yields at least one token. *)
Theorem split_bang_join (s : string) :
  join_bang (split_bang s) = s /\ 1 <= List.length (split_bang s).
Proof.
  split; [apply join_split_bang_acc|].
  destruct (split_bang_acc_cons s "") as [x [r H]]. unfold split_bang. rewrite H. simpl. lia.
Qed.

(** ** [u32::from_str] *)

Lemma decimal_value_from_ge (acc : N) (s : string) : (acc <= decimal_value_from acc s)%N.
Proof.
  revert acc; induction s as [|c s IH]; intros acc; simpl; [lia|].
  destruct (to_digit c) as [d|]; [|lia]. specialize (IH (acc * 10 + d)%N). lia.
Qed.

Lemma from_digits_value (acc : N) (s : string) :
  (acc < u32_limit)%N -> all_digits s = true ->
  from_digits acc s =
  if (decimal_value_from acc s <? u32_limit)%N then Ok (decimal_value_from acc s)
  else Err PIE_PosOverflow.
Proof.
  revert acc; induction s as [|c s IH]; intros acc Hacc Hd; simpl in *.
  - destruct (N.ltb_spec acc u32_limit); [reflexivity|lia].
  - destruct (to_digit c) as [d|]; [|discriminate].
    pose proof (decimal_value_from_ge (acc * 10 + d)%N s).
    destruct (N.ltb_spec (acc * 10) u32_limit).
    + destruct (N.ltb_spec (acc * 10 + d) u32_limit).
      * apply IH; assumption.
      * destruct (N.ltb_spec (decimal_value_from (acc * 10 + d) s) u32_limit); [lia|reflexivity].
    + destruct (N.ltb_spec (decimal_value_from (acc * 10 + d) s) u32_limit); [lia|reflexivity].
Qed.


(** X2: a weight token made of decimal digits, with or without one leading
    ['+'], parses to its decimal value when that value is at most
    [u32::MAX] (leading zeros allowed) and fails with [PosOverflow]
    otherwise. *)
Theorem u32_from_str_decimal (s : string) (Hs : is_decimal s = true) :
  u32_from_str s =
    (if (decimal_value s <? u32_limit)%N then Ok (decimal_value s) else Err PIE_PosOverflow) /\
  u32_from_str (String "+" s) = u32_from_str s.
Proof.
  destruct s as [|c r]; [discriminate|].
  assert (Hd : all_digits (String c r) = true) by exact Hs.
  assert (Hc : exists d, to_digit c = Some d)
    by (simpl in Hd; destruct (to_digit c); [eexists; reflexivity|discriminate]).
  assert (Hplus : Ascii.eqb c "+" = false).
  { destruct (Ascii.eqb_spec c "+") as [->|]; [|reflexivity].
    destruct Hc as [d Hc]; discriminate Hc. }
  assert (Hminus : Ascii.eqb c "-" = false).
  { destruct (Ascii.eqb_spec c "-") as [->|]; [|reflexivity].
    destruct Hc as [d Hc]; discriminate Hc. }
  assert (Hval : u32_from_str (String c r) =
    if (decimal_value (String c r) <? u32_limit)%N then Ok (decimal_value (String c r))
    else Err PIE_PosOverflow).
  { unfold u32_from_str. rewrite Hplus, Hminus.
    apply from_digits_value; [reflexivity|exact Hd]. }
  split; [exact Hval|].
  rewrite Hval. cbn [u32_from_str Ascii.eqb Bool.eqb andb].
  apply from_digits_value; [reflexivity|exact Hd].
Qed.

Lemma u32_from_str_decimal_witness :
  u32_from_str "0042" = Ok 42%N /\ u32_from_str "+0042" = Ok 42%N /\
  u32_from_str "4294967296" = Err PIE_PosOverflow.
Proof.
  split; [exact (proj1 (u32_from_str_decimal "0042" eq_refl))|].
  split; [rewrite (proj2 (u32_from_str_decimal "0042" eq_refl));
          exact (proj1 (u32_from_str_decimal "0042" eq_refl))|].
  exact (proj1 (u32_from_str_decimal "4294967296" eq_refl)).
Defined.




(** ** The parsing loop *)

Lemma parse_from_drop_comments (st : state) (lines : list io_line) :
  parse_from st lines = parse_from st (drop_comments lines).
Proof.
  revert st; induction lines as [|[l|] rest IH]; intros st; [reflexivity| |].
  - unfold drop_comments; cbn [filter].
    destruct (starts_with_hash l) eqn:Hc; cbn [negb].
    + cbn [parse_from]. unfold parse_step at 1. rewrite Hc. cbn [bind]. apply IH.
    + cbn [parse_from]. destruct (parse_step st (LineOk l)); cbn [bind]; [apply IH|reflexivity].
  - cbn [parse_from drop_comments filter]. cbn [parse_step bind]. apply IH.
Qed.

(** X4: comment lines (those starting with ['#']) are ignored wherever they
    appear, before or after the header: removing them does not change the
    outcome of the parse. *)
Theorem parse_ignores_comments (lines : list io_line) :
  parse lines = parse (drop_comments lines).
Proof. unfold parse. apply parse_from_drop_comments. Qed.

Lemma parse_step_extends (st st' : state) (line : io_line) :
  format st <> "" -> parse_step st line = Ret st' ->
  format st' = format st /\ exists added, loot_table st' = (loot_table st ++ added)%list.
Proof.
  intros Hf Hs. split; [exact (parse_step_format st st' line Hf Hs)|].
  destruct line as [l|]; cbn [parse_step] in Hs; [|inversion Hs; exists []; now rewrite app_nil_r].
  destruct (starts_with_hash l); [inversion Hs; exists []; now rewrite app_nil_r|].
  destruct (String.eqb_spec (format st) "") as [E|_]; [contradiction|].
  destruct (String.eqb (format st) "Weighted").
  - destruct (negb _); [discriminate|].
    destruct (u32_from_str _); [|discriminate]. inversion Hs. eexists; reflexivity.
  - destruct (String.eqb (format st) "Uniform"); inversion Hs;
      [eexists; reflexivity|exists []; now rewrite app_nil_r].
Qed.

Lemma parse_from_extends (st st' : state) (lines : list io_line) :
  format st <> "" -> parse_from st lines = Ret st' ->
  format st' = format st /\ exists added, loot_table st' = (loot_table st ++ added)%list.
Proof.
  revert st; induction lines as [|line rest IH]; intros st Hf Hp; cbn [parse_from] in Hp.
  - inversion Hp; subst. split; [reflexivity|exists []; now rewrite app_nil_r].
  - destruct (parse_step st line) as [st1|p] eqn:Hs; cbn [bind] in Hp; [|discriminate].
    destruct (parse_step_extends st st1 line Hf Hs) as [Hf1 [a1 Ha1]].
    destruct (IH st1 ltac:(rewrite Hf1; exact Hf) Hp) as [Hf2 [a2 Ha2]].
    split; [congruence|]. exists (a1 ++ a2)%list. rewrite Ha2, Ha1, app_assoc. reflexivity.
Qed.

(** X5: once a prefix of the input has set the format, reading more lines
    never changes the format and only appends entries: the entries of the
    prefix stay, in order, at the front of the table. *)
Theorem parse_format_fixed (pre rest : list io_line) (st st' : state)
  (Hpre : parse pre = Ret st) (Hf : format st <> "")
  (Hall : parse (pre ++ rest) = Ret st') :
  format st' = format st /\ exists added, loot_table st' = (loot_table st ++ added)%list.
Proof.
  unfold parse in *. rewrite parse_from_app, Hpre in Hall. cbn [bind] in Hall.
  exact (parse_from_extends st st' rest Hf Hall).
Qed.

Lemma parse_format_fixed_witness :
  parse [LineOk "Uniform"; LineOk "sword"] = Ret (mkState "Uniform" [StringLoot "sword"]) /\
  parse ([LineOk "Uniform"; LineOk "sword"] ++ [LineOk "Weighted"; LineOk "a!!1"])
    = Ret (mkState "Uniform" [StringLoot "sword"; StringLoot "Weighted"; StringLoot "a!!1"]) /\
  format (mkState "Uniform" [StringLoot "sword"; StringLoot "Weighted"; StringLoot "a!!1"]) = "Uniform".
Proof.
  split; [reflexivity|]. split; [reflexivity|].
  exact (proj1 (parse_format_fixed [LineOk "Uniform"; LineOk "sword"]
                  [LineOk "Weighted"; LineOk "a!!1"] _ _ eq_refl ltac:(discriminate) eq_refl)).
Defined.

Lemma parse_from_count (st st' : state) (lines : list io_line) :
  (format st = "Weighted" \/ format st = "Uniform") ->
  parse_from st lines = Ret st' ->
  List.length (loot_table st') = List.length (loot_table st) + List.length (filter is_data_line lines).
Proof.
  revert st; induction lines as [|line rest IH]; intros st Hf Hp; cbn [parse_from] in Hp.
  - inversion Hp; subst. simpl. lia.
  - destruct (parse_step st line) as [st1|p] eqn:Hs; cbn [bind] in Hp; [|discriminate].
    assert (Hne : format st <> "") by (destruct Hf as [E|E]; rewrite E; discriminate).
    pose proof (parse_step_format st st1 line Hne Hs) as Hf1.
    rewrite (IH st1 ltac:(rewrite Hf1; exact Hf) Hp).
    destruct line as [l|]; cbn [parse_step] in Hs; [|inversion Hs; subst; reflexivity].
    cbn [filter is_data_line].
    destruct (starts_with_hash l); cbn [negb]; [inversion Hs; subst; reflexivity|].
    destruct Hf as [E|E]; rewrite E in Hs; cbn -[split_bang u32_from_str] in Hs.
    + destruct (negb _); [discriminate|].
      destruct (u32_from_str _); [|discriminate]. inversion Hs; subst.
      cbn [loot_table push List.length]. rewrite length_app. simpl. lia.
    + inversion Hs; subst. cbn [loot_table push]. rewrite length_app. simpl. lia.
Qed.

(** X6: a successful parse with a header produces exactly one entry per
    data line after the header (readable, not a comment): no data line is
    dropped or merged. *)
Theorem parse_entry_count (lines rest : list io_line) (h : string) (st : state)
  (Hh : header_split lines = Some (h, rest)) (Hp : parse lines = Ret st) :
  List.length (loot_table st) = List.length (filter is_data_line rest).
Proof.
  unfold parse in Hp. rewrite parse_from_header in Hp by reflexivity. rewrite Hh in Hp.
  destruct (String.eqb_spec h "Weighted") as [E|E].
  - cbn [orb] in Hp.
    rewrite (parse_from_count (mkState h []) st rest (or_introl E) Hp). reflexivity.
  - destruct (String.eqb_spec h "Uniform") as [E'|E']; cbn [orb] in Hp; [|discriminate].
    rewrite (parse_from_count (mkState h []) st rest (or_intror E') Hp). reflexivity.
Qed.

Lemma parse_entry_count_witness :
  List.length (loot_table (mkState "Weighted" [WeightedLoot "sword" 10; WeightedLoot "shield" 5])) = 2.
Proof.
  exact (parse_entry_count [LineOk "# t"; LineOk "Weighted"; LineOk "sword!!10"; LineErr;
                            LineOk "# c"; LineOk "shield!!5"]
           [LineOk "sword!!10"; LineErr; LineOk "# c"; LineOk "shield!!5"] "Weighted"
           (mkState "Weighted" [WeightedLoot "sword" 10; WeightedLoot "shield" 5])
           eq_refl eq_refl).
Defined.

Lemma parse_from_uniform_lines (acc : list loot) (names : list string) :
  Forall (fun s => starts_with_hash s = false) names ->
  parse_from (mkState "Uniform" acc) (map LineOk names) =
  Ret (mkState "Uniform" (acc ++ map StringLoot names)%list).
Proof.
  intros H; revert acc; induction H as [|s names Hs _ IH]; intros acc.
  - simpl. now rewrite app_nil_r.
  - cbn [map parse_from]. unfold parse_step at 1. rewrite Hs. simpl.
    unfold push; cbn [format loot_table]. rewrite IH. now rewrite <- app_assoc.
Qed.

(** X7: in Uniform mode every data line becomes an entry whose name is the
    line verbatim, in input order (no trimming, no interpretation of
    ["!!"]). *)
Theorem parse_uniform_lines (names : list string)
  (H : Forall (fun s => starts_with_hash s = false) names) :
  parse (LineOk "Uniform" :: map LineOk names) = Ret (mkState "Uniform" (map StringLoot names)).
Proof.
  unfold parse. cbn [parse_from]. change (parse_step init_state (LineOk "Uniform"))
    with (@Ret state (mkState "Uniform" [])). cbn [bind].
  apply parse_from_uniform_lines, H.
Qed.

Lemma parse_uniform_lines_witness :
  parse (LineOk "Uniform" :: map LineOk [" sword "; "a!!3"; "Uniform"])
    = Ret (mkState "Uniform" (map StringLoot [" sword "; "a!!3"; "Uniform"])).
Proof. exact (parse_uniform_lines [" sword "; "a!!3"; "Uniform"] ltac:(repeat constructor)). Defined.

Lemma parse_step_weighted (acc : list loot) (l : string) (e : loot) :
  starts_with_hash l = false -> weighted_entry l = Some e ->
  parse_step (mkState "Weighted" acc) (LineOk l) = Ret (mkState "Weighted" (acc ++ [e])%list).
Proof.
  intros Hc He. unfold weighted_entry in He. unfold parse_step. rewrite Hc.
  change (String.eqb (format (mkState "Weighted" acc)) "") with false.
  change (String.eqb (format (mkState "Weighted" acc)) "Weighted") with true.
  cbv beta iota zeta.
  destruct (split_bang l) as [|n [|w [|x r]]]; try discriminate.
  cbn [List.length Nat.eqb negb nth].
  destruct (u32_from_str w); [|discriminate]. inversion He; subst. reflexivity.
Qed.

Lemma parse_from_weighted_lines (acc : list loot) (ls : list string) (es : list loot) :
  Forall (fun s => starts_with_hash s = false) ls ->
  map weighted_entry ls = map Some es ->
  parse_from (mkState "Weighted" acc) (map LineOk ls) = Ret (mkState "Weighted" (acc ++ es)%list).
Proof.
  intros H; revert acc es; induction H as [|l ls Hl _ IH]; intros acc es He.
  - destruct es; [|discriminate]. simpl. now rewrite app_nil_r.
  - destruct es as [|e es]; [discriminate|]. inversion He as [[He1 He2]].
    cbn [map parse_from]. rewrite (parse_step_weighted acc l e Hl He1). cbn [bind].
    rewrite (IH (acc ++ [e])%list es He2). now rewrite <- app_assoc.
Qed.

(** X8: in Weighted mode, when every data line is well formed (two
    ["!!"]-separated tokens, the second a valid [u32]), the table holds,
    in input order, one entry per line: the left token as name and the
    parsed right token as weight. *)
Theorem parse_weighted_lines (ls : list string) (es : list loot)
  (Hc : Forall (fun s => starts_with_hash s = false) ls)
  (He : map weighted_entry ls = map Some es) :
  parse (LineOk "Weighted" :: map LineOk ls) = Ret (mkState "Weighted" es).
Proof.
  unfold parse. cbn [parse_from]. change (parse_step init_state (LineOk "Weighted"))
    with (@Ret state (mkState "Weighted" [])). cbn [bind].
  apply (parse_from_weighted_lines [] ls es Hc He).
Qed.

Lemma parse_weighted_lines_witness :
  parse (LineOk "Weighted" :: map LineOk ["sword!!10"; "shield!!+05"])
    = Ret (mkState "Weighted" [WeightedLoot "sword" 10; WeightedLoot "shield" 5]).
Proof.
  exact (parse_weighted_lines ["sword!!10"; "shield!!+05"]
           [WeightedLoot "sword" 10; WeightedLoot "shield" 5]
           ltac:(repeat constructor) eq_refl).
Defined.

(** X9: an input without any readable non-comment line (an empty file, or
    only comments) parses to a table with no format and no entries, and
    pressing the button then panics at the format dispatch (line 290). *)
Theorem parse_no_header (lines : list io_line) (H : header_split lines = None) :
  parse lines = Ret init_state /\
  (forall oc r, pick_loot oc init_state r = Panic PanicInvalidFormat).
Proof.
  split.
  - unfold parse. rewrite parse_from_header by reflexivity. rewrite H. reflexivity.
  - intros oc r. reflexivity.
Qed.

Lemma parse_no_header_witness :
  parse [LineOk "# empty table"; LineErr] = Ret init_state.
Proof. exact (proj1 (parse_no_header [LineOk "# empty table"; LineErr] eq_refl)). Defined.




(** ** [WeightedIndex::new] *)

Lemma cumulate_checked_panic_iff (t : N) (ws : list N) :
  (t < u32_limit)%N ->
  (cumulate true t ws = Panic PanicAddOverflow <-> (u32_limit <= t + sumN ws)%N).
Proof.
  revert t; induction ws as [|w ws IH]; intros t Ht; cbn [cumulate].
  - simpl. split; [discriminate|lia].
  - unfold u32_add_assign. change (sumN (w :: ws)) with (w + sumN ws)%N.
    destruct (N.ltb_spec (t + w) u32_limit) as [Hlt|Hge]; cbn [bind].
    + specialize (IH (t + w)%N Hlt).
      destruct (cumulate true (t + w)%N ws) eqn:Hc; cbn [bind].
      * split; [discriminate|].
        intros Hle. assert (E : @Panic (list N * N) PanicAddOverflow = Ret a)
          by (symmetry; apply IH; lia). discriminate E.
      * split; intros E; [apply IH in E; lia|apply IH; lia].
    + split; [intros _; lia|reflexivity].
Qed.

Lemma cumulate_unchecked_ret (t : N) (ws : list N) :
  exists p, cumulate false t ws = Ret p.
Proof.
  revert t; induction ws as [|w ws IH]; intros t; cbn [cumulate]; [eexists; reflexivity|].
  unfold u32_add_assign.
  destruct (t + w <? u32_limit)%N; cbn [bind];
    [destruct (IH (t + w)%N) as [p Hp]|destruct (IH (t + w - u32_limit)%N) as [p Hp]];
    rewrite Hp; cbn [bind]; eexists; reflexivity.
Qed.

(** X11: for [u32] weights, [WeightedIndex::new] panics exactly when their
    sum exceeds [u32::MAX] if overflow checks are on, and never panics if
    they are off (the sum then wraps around). *)
Theorem WeightedIndex_new_overflow (ws : list N)
  (Hw : Forall (fun w => (w < u32_limit)%N) ws) :
  (WeightedIndex_new true ws = Panic PanicAddOverflow <-> (u32_limit <= sumN ws)%N) /\
  (forall p, WeightedIndex_new false ws <> Panic p).
Proof.
  split.
  - destruct ws as [|w0 rest]; cbn [WeightedIndex_new].
    + simpl. split; [discriminate|unfold u32_limit; lia].
    + inversion Hw as [|? ? Hw0 _]; subst.
      rewrite <- (cumulate_checked_panic_iff w0 rest Hw0).
      destruct (cumulate true w0 rest) as [p|q]; cbn [bind].
      * destruct (snd p =? 0)%N; split; discriminate.
      * split; intros E; inversion E; reflexivity.
  - intros p. destruct ws as [|w0 rest]; cbn [WeightedIndex_new]; [discriminate|].
    destruct (cumulate_unchecked_ret w0 rest) as [q Hq]. rewrite Hq. cbn [bind].
    destruct (snd q =? 0)%N; discriminate.
Qed.

Lemma WeightedIndex_new_overflow_witness :
  WeightedIndex_new true [4294967295%N; 1%N] = Panic PanicAddOverflow.
Proof.
  exact (proj2 (proj1 (WeightedIndex_new_overflow [4294967295%N; 1%N]
                         ltac:(repeat constructor)))
           ltac:(unfold u32_limit; simpl; lia)).
Defined.




(** ** Uniform selection by name *)

Lemma pick_random_uniform_at (items : list loot) (r : nat) :
  Forall (fun l => is_string l = true) items -> r < List.length items ->
  pick_random_uniform items r = Ret (entry_name (nth r items (StringLoot ""))).
Proof.
  intros Hs Hr. unfold pick_random_uniform.
  destruct (Nat.eqb_spec (List.length items) 0); [lia|].
  rewrite (nth_error_nth' _ (StringLoot "") Hr).
  assert (Hin : In (nth r items (StringLoot "")) items) by (apply nth_In; exact Hr).
  rewrite Forall_forall in Hs. specialize (Hs _ Hin).
  destruct (nth r items (StringLoot "")); [discriminate Hs|reflexivity].
Qed.

Lemma count_nth_eqb (l : list string) (s : string) :
  List.length (filter (fun r => String.eqb (nth r l "") s) (seq 0 (List.length l))) =
  List.length (filter (fun x => String.eqb x s) l).
Proof.
  induction l as [|x l IH]; [reflexivity|].
  cbn [List.length seq filter nth].
  change (seq 1 (List.length l)) with (seq (1 + 0) (List.length l)).
  destruct (String.eqb x s); cbn [List.length];
    rewrite filter_seq_shift; cbn [Nat.add nth]; rewrite IH; reflexivity.
Qed.

(** X13: in a Uniform table with duplicate names, a name is returned by as
    many of the [n] equally likely draws as there are entries carrying
    it: its probability is its multiplicity divided by [n]. *)
Theorem pick_random_uniform_name_count (items : list loot) (s : string)
  (Hs : Forall (fun l => is_string l = true) items) :
  count_draws (List.length items)
    (fun r => match pick_random_uniform items r with
              | Ret s' => String.eqb s' s
              | Panic _ => false
              end) =
  List.length (filter (fun x => String.eqb x s) (map entry_name items)).
Proof.
  unfold count_draws.
  rewrite (filter_ext_in _ (fun r => String.eqb (nth r (map entry_name items) "") s)).
  - rewrite <- (length_map entry_name items) at 1. apply count_nth_eqb.
  - intros r Hr. apply in_seq in Hr.
    rewrite pick_random_uniform_at by (assumption || lia).
    change "" with (entry_name (StringLoot "")) at 2. rewrite map_nth. reflexivity.
Qed.

Lemma pick_random_uniform_name_count_witness :
  count_draws 3 (fun r => match pick_random_uniform
                                  [StringLoot "gem"; StringLoot "rock"; StringLoot "gem"] r with
                          | Ret s' => String.eqb s' "gem"
                          | Panic _ => false
                          end) = 2.
Proof.
  exact (pick_random_uniform_name_count [StringLoot "gem"; StringLoot "rock"; StringLoot "gem"]
           "gem" ltac:(repeat constructor)).
Defined.

(** ** The form *)

Lemma on_tick_labels (s : ui_state) (ls : labels) :
  on_tick s ls RandomItemLabel = ls RandomItemLabel /\
  on_tick s ls BigTextLabel = "Selected Item: " ++ loot_val s.
Proof. split; reflexivity. Qed.

Lemma run_events_labels (oc : bool) (table : state) (es : list ui_event) :
  forall s ls s' ls',
  run_events oc table s ls es = Ret (s', ls') ->
  ls' RandomItemLabel = ls RandomItemLabel /\
  (es <> [] -> ls' BigTextLabel = "Selected Item: " ++ loot_val s').
Proof.
  induction es as [|e es IH]; intros s ls s' ls' H; cbn [run_events] in H.
  - inversion H; subst. split; [reflexivity|intros E; contradiction].
  - destruct (on_event oc table s e) as [s1|p]; cbn [bind] in H; [|discriminate].
    destruct (IH _ _ _ _ H) as [H1 H2]. split.
    + rewrite H1. apply on_tick_labels.
    + intros _. destruct es as [|e' es'].
      * cbn [run_events] in H. inversion H; subst. apply on_tick_labels.
      * apply H2. discriminate.
Qed.

(** X14: because the tick closure's [random_item_label] is a clone of
    [bigtext_label] (line 305), the label created for the selected item
    keeps its initial empty text forever, and after any handled event the
    multiline-text label shows ["Selected Item: "] followed by the last
    selection, never the multiline text. *)
Theorem form_selected_item_label (oc : bool) (table : state) (es : list ui_event)
  (s' : ui_state) (ls' : labels)
  (H : run_events oc table init_ui init_labels es = Ret (s', ls')) :
  ls' RandomItemLabel = "" /\
  (es <> [] -> ls' BigTextLabel = "Selected Item: " ++ loot_val s').
Proof. exact (run_events_labels oc table es init_ui init_labels s' ls' H). Qed.

Lemma form_selected_item_label_witness :
  exists s' ls',
    run_events false (mkState "Uniform" [StringLoot "sword"]) init_ui init_labels
      [MultiChanged "notes"; ButtonClicked 0] = Ret (s', ls') /\
    ls' RandomItemLabel = "" /\ ls' BigTextLabel = "Selected Item: sword".
Proof.
  eexists; eexists. split; [reflexivity|].
  exact (conj (proj1 (form_selected_item_label false (mkState "Uniform" [StringLoot "sword"])
                        [MultiChanged "notes"; ButtonClicked 0] _ _ eq_refl))
              (proj2 (form_selected_item_label false (mkState "Uniform" [StringLoot "sword"])
                        [MultiChanged "notes"; ButtonClicked 0] _ _ eq_refl)
                     ltac:(discriminate))).
Defined.

(** X15: clicking the button on a parsed Uniform table with [n >= 1] entries,
    with draw [r < n], stores the name of entry [r] in [loot_val], leaves
    the other fields of the form state unchanged, and the next tick writes
    ["Selected Item: "] and that name into the multiline-text label. *)
Theorem button_click_uniform (oc : bool) (lines : list io_line) (table : state)
  (s : ui_state) (ls : labels) (r : nat)
  (Hp : parse lines = Ret table) (Hf : format table = "Uniform")
  (Hr : r < List.length (loot_table table)) :
  let name := entry_name (nth r (loot_table table) (StringLoot "")) in
  run_events oc table s ls [ButtonClicked r] =
  Ret (mkUi (slider_val s) (spinner_val s) (entry_val s) (multi_val s) name,
       on_tick (mkUi (slider_val s) (spinner_val s) (entry_val s) (multi_val s) name) ls) /\
  on_tick (mkUi (slider_val s) (spinner_val s) (entry_val s) (multi_val s) name) ls BigTextLabel
  = "Selected Item: " ++ name.
Proof.
  intros name. split; [|reflexivity].
  assert (Hh : homogeneous table)
    by (apply (parse_from_homogeneous init_state table lines); [left; split; reflexivity|exact Hp]).
  assert (Hs : Forall (fun l => is_string l = true) (loot_table table)).
  { destruct Hh as [[E _] | [[E _] | [_ Ht]]]; [rewrite Hf in E; discriminate
                                               | rewrite Hf in E; discriminate | exact Ht]. }
  cbn [run_events on_event]. unfold pick_loot. rewrite Hf. cbn [String.eqb Ascii.eqb Bool.eqb].
  rewrite (pick_random_uniform_at _ r Hs Hr). reflexivity.
Qed.

Lemma button_click_uniform_witness :
  run_events true (mkState "Uniform" [StringLoot "sword"; StringLoot "shield"]) init_ui init_labels
    [ButtonClicked 1] =
  Ret (mkUi 0 0 "" "" "shield", on_tick (mkUi 0 0 "" "" "shield") init_labels).
Proof.
  exact (proj1 (button_click_uniform true [LineOk "Uniform"; LineOk "sword"; LineOk "shield"]
                  (mkState "Uniform" [StringLoot "sword"; StringLoot "shield"]) init_ui init_labels 1
                  eq_refl eq_refl ltac:(simpl; lia))).
Defined.
